(** * flask-project: user accounts and JWT authentication

    A shallow embedding of [resources/user.py], [app.py] and the Alembic
    revision [ffc4b5ea7515], with the properties of the service stated
    and proved over it.

    Layout: the embedding (library interfaces, persistence, handlers,
    migration) comes first; the lemmas follow. *)

From stdpp Require Import gmap strings list fin_maps.
From Stdlib Require Import ZArith.

Open Scope string_scope.
Open Scope Z_scope.

(** ** passlib.hash.pbkdf2_sha256

    The password hasher is an external library.  It is taken as an
    interface: [hash] draws a random salt, which is made an explicit
    argument here, and [verify] checks a password against a stored hash. *)

Class Pbkdf2Sha256 := {
  pbkdf2_sha256_hash : string → string → string;   (* salt, secret *)
  pbkdf2_sha256_verify : string → string → bool    (* secret, stored hash *)
}.


(** A small stand-in hasher, used to run the handlers on concrete
    inputs: the "hash" is the secret behind a scheme marker and the
    salt. *)
Definition demo_hash (salt secret : string) : string :=
  "$" +:+ secret +:+ "$" +:+ salt.

Definition demo_verify (secret hash : string) : bool :=
  String.prefix ("$" +:+ secret +:+ "$") hash.

Definition demo_hasher : Pbkdf2Sha256 :=
  {| pbkdf2_sha256_hash := demo_hash; pbkdf2_sha256_verify := demo_verify |}.

(** ** flask_jwt_extended

    Tokens are modelled symbolically: an encoded token is its payload
    together with the key it was signed with.  The claims are those the
    library writes into every token. *)

Inductive token_type := access | refresh.

Global Instance token_type_eq_dec : EqDecision token_type.
Proof. solve_decision. Defined.

Record Claims := mkClaims {
  c_fresh : bool;
  c_iat : Z;
  c_jti : string;
  c_type : token_type;
  c_sub : Z;
  c_nbf : Z;
  c_exp : Z
}.

Record EncodedToken := mkToken {
  payload : Claims;
  signed_with : string
}.

(** What a request carries in its [Authorization] header, if anything.
    [Bearer t] is the header [Bearer <jwt>] for the token [t].
    [Garbage fields] is a header value that holds no well-formed token,
    given as its comma-separated fields, each field as its first word
    and the words after it (a value with an empty field between two
    commas is not represented). *)
Inductive bearer :=
| Garbage (fields : list (string * list string))
| Bearer (t : EncodedToken).

(** The exceptions raised while a protected route checks its token. *)
Inductive jwt_exn :=
| NoAuthorizationError
| InvalidHeaderError
| DecodeError
| ImmatureSignatureError
| ExpiredSignatureError
| WrongTokenError
| FreshTokenRequired
| RevokedTokenError.

(** The library defaults of [JWT_ACCESS_TOKEN_EXPIRES] (15 minutes) and
    [JWT_REFRESH_TOKEN_EXPIRES] (30 days), in seconds; [app.py] sets
    neither. *)
Definition JWT_ACCESS_TOKEN_EXPIRES : Z := 900.
Definition JWT_REFRESH_TOKEN_EXPIRES : Z := 2592000.

Section jwt.
(** [app.config["JWT_SECRET_KEY"]] *)
Variable secret_key : string.

(** [create_access_token(identity, fresh)]: [now] is the clock and
    [uuid] the value drawn for the [jti] claim. *)
Definition create_access_token (now : Z) (uuid : string)
    (identity : Z) (fresh : bool) : EncodedToken :=
  {| payload := {| c_fresh := fresh; c_iat := now; c_jti := uuid;
                   c_type := access; c_sub := identity; c_nbf := now;
                   c_exp := now + JWT_ACCESS_TOKEN_EXPIRES |};
     signed_with := secret_key |}.

(** [create_refresh_token(identity)] *)
Definition create_refresh_token (now : Z) (uuid : string)
    (identity : Z) : EncodedToken :=
  {| payload := {| c_fresh := false; c_iat := now; c_jti := uuid;
                   c_type := refresh; c_sub := identity; c_nbf := now;
                   c_exp := now + JWT_REFRESH_TOKEN_EXPIRES |};
     signed_with := secret_key |}.

(** [decode_token]: the signature is checked first, then the claims
    in the order [iat], [nbf], [exp]: a token issued or valid only
    after [now] is immature, a token with [exp <= now] is expired (the
    leeway is the default, zero). *)
Definition decode_token (now : Z) (t : EncodedToken) : jwt_exn + Claims :=
  if bool_decide (signed_with t = secret_key) then
    if bool_decide (now < c_iat (payload t)) then inl ImmatureSignatureError
    else if bool_decide (now < c_nbf (payload t)) then inl ImmatureSignatureError
    else if bool_decide (c_exp (payload t) ≤ now) then inl ExpiredSignatureError
    else inr (payload t)
  else inl DecodeError.

(** The header without a well-formed token: the fields whose first
    word is [Bearer] are looked for; unless there is exactly one, the
    header counts as missing; that field must be made of two words,
    and its second word, which is no token, does not decode. *)
Definition decode_garbage_header (fields : list (string * list string)) : jwt_exn :=
  match filter (λ f, f.1 = "Bearer") fields with
  | [(_, rest)] =>
      if bool_decide (length rest = 1%nat) then DecodeError
      else InvalidHeaderError
  | _ => NoAuthorizationError
  end.

(** [verify_token_type(decoded_token, refresh)] *)
Definition verify_token_type (c : Claims) (want_refresh : bool) : jwt_exn + unit :=
  match want_refresh, c_type c with
  | false, refresh => inl WrongTokenError
  | true, access => inl WrongTokenError
  | _, _ => inr ()
  end.

(** [verify_jwt_in_request(fresh, refresh)], the body of
    [@jwt_required(...)]: find the token, decode it, then check its
    type, its freshness when asked, and last the blocklist through the
    callback registered with [token_in_blocklist_loader].  With
    [refresh=False], the default, the route requires an access token;
    with [refresh=True] it requires a refresh token. *)
Definition verify_jwt_in_request (in_blocklist : Claims → bool)
    (now : Z) (header : option bearer)
    (want_fresh want_refresh : bool) : jwt_exn + Claims :=
  match header with
  | None => inl NoAuthorizationError
  | Some (Garbage fields) => inl (decode_garbage_header fields)
  | Some (Bearer t) =>
      match decode_token now t with
      | inl e => inl e
      | inr c =>
          match verify_token_type c want_refresh with
          | inl e => inl e
          | inr _ =>
              if want_fresh && negb (c_fresh c) then inl FreshTokenRequired
              else if in_blocklist c then inl RevokedTokenError
              else inr c
          end
      end
  end.
End jwt.

(** ** HTTP results *)

Inductive value :=
| VStr (s : string)
| VInt (n : Z)
| VJwt (t : EncodedToken).

(** A JSON object, as the ordered list of its members. *)
Definition body := list (string * value).

Definition keys (b : body) : list string := b.*1.

(** Exceptions of the persistence layer: a violated constraint, and a
    value that does not fit its column. *)
Inductive storage_exn :=
| IntegrityError (constraint : string)
| DataError (column : string).

(** What a view function does: return a body and a status, [abort]
    with a status (and perhaps a message), or let an exception escape,
    which the framework answers with 500. *)
Inductive outcome :=
| Response (b : body) (status : Z)
| Abort (status : Z) (message : option string)
| Unhandled (e : storage_exn).

Definition status_code (o : outcome) : Z :=
  match o with
  | Response _ s => s
  | Abort s _ => s
  | Unhandled _ => 500
  end.

(** The value of the ["error"] member of a response body, if any. *)
Definition error_code (o : outcome) : option string :=
  match o with
  | Response b _ =>
      match list_find (λ kv, kv.1 = "error") b with
      | Some (_, (_, VStr s)) => Some s
      | _ => None
      end
  | _ => None
  end.

(** ** Persistence: [models.UserModel] and [db.session] *)

(** Modelled from the spec: [models.py] is not among the sources.  The
    entity has an integer [id] assigned by the store, a [username] that
    is unique across users, and a [password] holding the hash. *)
Module UserModel.
Record t := mk { id : Z; username : string; password : string }.

Global Instance eq_dec : EqDecision t.
Proof. solve_decision. Defined.
End UserModel.

(** Modelled from the spec: the [users] table behind [db.session]
    ([db.py] is not among the sources), as its rows in insertion order
    and the next value of the [id] sequence. *)
Record Store := mkStore {
  rows : list UserModel.t;
  next_id : Z
}.

Definition empty_store : Store := {| rows := []; next_id := 1 |}.

(** [UserModel.query.filter(UserModel.username == name).first()] *)
Definition query_by_username_first (s : Store) (name : string) : option UserModel.t :=
  head (filter (λ u, UserModel.username u = name) (rows s)).

(** [UserModel.query.get(user_id)], the lookup inside [get_or_404]. *)
Definition query_get (s : Store) (user_id : Z) : option UserModel.t :=
  head (filter (λ u, UserModel.id u = user_id) (rows s)).

(** The width of the [username] column. *)
Definition USERNAME_MAX : nat := 80.

(** [db.session.add(UserModel(username=..., password=...))] followed by
    [db.session.commit()].  The store assigns the id.  The commit
    raises, and nothing is written, when the username does not fit its
    column of 80 characters, and when it does but is taken (the unique
    constraint).  The [password] column holds 200 characters; what is
    written there is a PBKDF2-SHA256 hash, 87 characters long, so that
    width is never reached and is not checked.  The sequence values a
    failed insert uses up are not tracked. *)
Definition session_add_commit (s : Store) (username password : string)
    : storage_exn + Store :=
  if decide (USERNAME_MAX < String.length username)%nat
  then inl (DataError "username")
  else if decide (username ∈ UserModel.username <$> rows s)
  then inl (IntegrityError "users_username_key")
  else inr {| rows := rows s ++ [UserModel.mk (next_id s) username password];
              next_id := next_id s + 1 |}.

(** [db.session.delete(user)] followed by [db.session.commit()]. *)
Definition session_delete_commit (s : Store) (user : UserModel.t) : Store :=
  {| rows := filter (λ r, UserModel.id r ≠ UserModel.id user) (rows s);
     next_id := next_id s |}.

(** How many stored users carry a given username. *)
Definition count_username (s : Store) (name : string) : nat :=
  length (filter (λ u, UserModel.username u = name) (rows s)).

(** The storage invariant: usernames and ids are unique, every id in
    use lies below the sequence, and every username fits its column. *)
Record Store_wf (s : Store) : Prop := {
  wf_usernames : NoDup (UserModel.username <$> rows s);
  wf_ids : NoDup (UserModel.id <$> rows s);
  wf_next : Forall (λ u, UserModel.id u < next_id s) (rows s);
  wf_width : Forall (λ u, (String.length (UserModel.username u) ≤ USERNAME_MAX)%nat)
               (rows s)
}.

(** ** The state of the process *)

(** Modelled from the spec: [blocklist.py] is not among the sources.
    [BLOCKLIST] is the process-wide set of revoked token identifiers,
    empty at start and used through [add] and [in] only; [db] is the
    database behind the session. *)
Record World := mkWorld {
  db : Store;
  BLOCKLIST : gset string
}.

Definition initial_world : World := {| db := empty_store; BLOCKLIST := ∅ |}.

(** [BLOCKLIST.add(jti)] *)
Definition BLOCKLIST_add (jti : string) (w : World) : World :=
  {| db := db w; BLOCKLIST := {[ jti ]} ∪ BLOCKLIST w |}.

(** What a request draws from outside the process: the clock, the salt
    the hasher draws, and the first and second [uuid4] drawn for [jti]
    claims. *)
Record Env := mkEnv {
  now : Z;
  salt : string;
  uuid_1 : string;
  uuid_2 : string
}.

(** ** app.py *)

Definition JWT_SECRET_KEY : string := "jose".

(** [@jwt.token_in_blocklist_loader] *)
Definition check_if_token_in_blocklist (w : World) (jwt_payload : Claims) : bool :=
  bool_decide (c_jti jwt_payload ∈ BLOCKLIST w).

(** [@jwt.expired_token_loader] *)
Definition expired_token_callback : outcome :=
  Response [("message", VStr "The token has expired.");
            ("error", VStr "token_expired")] 401.

(** [@jwt.invalid_token_loader] *)
Definition invalid_token_callback : outcome :=
  Response [("message", VStr "Signature verification failed.");
            ("error", VStr "invalid_token")] 401.

(** [@jwt.unauthorized_loader] *)
Definition missing_token_callback : outcome :=
  Response [("description", VStr "Request does not contain an access token.");
            ("error", VStr "authorization_required")] 401.

(** [@jwt.needs_fresh_token_loader] *)
Definition token_not_fresh_callback : outcome :=
  Response [("description", VStr "The token is not fresh.");
            ("error", VStr "fresh_token_required")] 401.

(** [@jwt.revoked_token_loader] *)
Definition revoked_token_callback : outcome :=
  Response [("description", VStr "The token has been revoked.");
            ("error", VStr "token_revoked")] 401.

(** The error handlers [JWTManager(app)] installs: each exception of a
    protected route goes to the callback registered for it; a malformed
    header, a bad signature, a token presented before it is valid and a
    token of the wrong type all go to the invalid-token callback. *)
Definition jwt_error_handler (e : jwt_exn) : outcome :=
  match e with
  | NoAuthorizationError => missing_token_callback
  | InvalidHeaderError | DecodeError | ImmatureSignatureError | WrongTokenError =>
      invalid_token_callback
  | ExpiredSignatureError => expired_token_callback
  | FreshTokenRequired => token_not_fresh_callback
  | RevokedTokenError => revoked_token_callback
  end.

(** [@jwt_required(refresh=...)] as wired by [app.py]. *)
Definition jwt_required (w : World) (env : Env) (authorization : option bearer)
    (refresh : bool) : outcome + Claims :=
  match verify_jwt_in_request JWT_SECRET_KEY (check_if_token_in_blocklist w)
          (now env) authorization false refresh with
  | inl e => inl (jwt_error_handler e)
  | inr c => inr c
  end.

(** ** schemas.UserSchema *)

(** The [user_data] a view receives once [@blp.arguments(UserSchema)]
    has validated the request body. *)
Record UserData := mkUserData {
  ud_username : string;
  ud_password : string
}.

(** Modelled from the spec: [schemas.py] is not among the sources.
    Dumping a user yields [id] and [username]; [password] is write-only
    and never part of an output payload. *)
Definition UserSchema_dump (u : UserModel.t) : body :=
  [("id", VInt (UserModel.id u)); ("username", VStr (UserModel.username u))].

(** ** resources/user.py *)

Section resources.
Context `{Pbkdf2Sha256}.

(** [UserRegister.post], first statement: the look-up by username and
    the [abort(409, ...)] it guards.  [Some o] is the abort. *)
Definition UserRegister_check (w : World) (user_data : UserData) : option outcome :=
  match query_by_username_first (db w) (ud_username user_data) with
  | Some _ => Some (Abort 409 (Some "A user with that username already exists."))
  | None => None
  end.

(** [UserRegister.post], the rest: build the user with the hashed
    password, add it, commit, and answer 201.  Nothing catches what
    the commit raises. *)
Definition UserRegister_insert (w : World) (env : Env) (user_data : UserData)
    : World * outcome :=
  match session_add_commit (db w) (ud_username user_data)
          (pbkdf2_sha256_hash (salt env) (ud_password user_data)) with
  | inr s' => ({| db := s'; BLOCKLIST := BLOCKLIST w |},
               Response [("message", VStr "User created successfully.")] 201)
  | inl e => (w, Unhandled e)
  end.

(** [UserRegister.post] *)
Definition UserRegister_post (w : World) (env : Env) (user_data : UserData)
    : World * outcome :=
  match UserRegister_check w user_data with
  | Some o => (w, o)
  | None => UserRegister_insert w env user_data
  end.

(** [UserLogin.post] *)
Definition UserLogin_post (w : World) (env : Env) (user_data : UserData)
    : World * outcome :=
  match query_by_username_first (db w) (ud_username user_data) with
  | Some user =>
      if pbkdf2_sha256_verify (ud_password user_data) (UserModel.password user) then
        let access_token :=
          create_access_token JWT_SECRET_KEY (now env) (uuid_1 env)
            (UserModel.id user) true in
        let refresh_token :=
          create_refresh_token JWT_SECRET_KEY (now env) (uuid_2 env)
            (UserModel.id user) in
        (w, Response [("access_token", VJwt access_token);
                      ("refresh_token", VJwt refresh_token)] 200)
      else (w, Abort 401 (Some "Invalid credentials."))
  | None => (w, Abort 401 (Some "Invalid credentials."))
  end.

(** [UserLogout.post], under [@jwt_required()] *)
Definition UserLogout_post (w : World) (env : Env) (authorization : option bearer)
    : World * outcome :=
  match jwt_required w env authorization false with
  | inl o => (w, o)
  | inr claims =>
      let jti := c_jti claims in
      (BLOCKLIST_add jti w,
       Response [("message", VStr "Successfully logged out")] 200)
  end.

(** [User.get], under [@blp.response(200, UserSchema)] *)
Definition User_get (w : World) (user_id : Z) : World * outcome :=
  match query_get (db w) user_id with
  | Some user => (w, Response (UserSchema_dump user) 200)
  | None => (w, Abort 404 None)
  end.

(** [User.delete] *)
Definition User_delete (w : World) (user_id : Z) : World * outcome :=
  match query_get (db w) user_id with
  | Some user =>
      ({| db := session_delete_commit (db w) user; BLOCKLIST := BLOCKLIST w |},
       Response [("message", VStr "User deleted.")] 200)
  | None => (w, Abort 404 None)
  end.

(** [TokenRefresh.post], under [@jwt_required(refresh=True)] *)
Definition TokenRefresh_post (w : World) (env : Env) (authorization : option bearer)
    : World * outcome :=
  match jwt_required w env authorization true with
  | inl o => (w, o)
  | inr claims =>
      let current_user := c_sub claims in
      let new_token :=
        create_access_token JWT_SECRET_KEY (now env) (uuid_1 env)
          current_user false in
      let jti := c_jti claims in
      (BLOCKLIST_add jti w, Response [("access_token", VJwt new_token)] 200)
  end.

(** *** The routes of the blueprint *)

Inductive request :=
| POST_register (user_data : UserData)
| POST_login (user_data : UserData)
| POST_logout (authorization : option bearer)
| GET_user (user_id : Z)
| DELETE_user (user_id : Z)
| POST_refresh (authorization : option bearer).

Definition dispatch (w : World) (env : Env) (r : request) : World * outcome :=
  match r with
  | POST_register user_data => UserRegister_post w env user_data
  | POST_login user_data => UserLogin_post w env user_data
  | POST_logout authorization => UserLogout_post w env authorization
  | GET_user user_id => User_get w user_id
  | DELETE_user user_id => User_delete w user_id
  | POST_refresh authorization => TokenRefresh_post w env authorization
  end.

(** The process serving a sequence of requests, one after the other. *)
Fixpoint serve (w : World) (trace : list (Env * request)) : World :=
  match trace with
  | [] => w
  | (env, r) :: rest => serve (dispatch w env r).1 rest
  end.
End resources.

(** The token type a protected route asks for. *)
Definition required_type (refresh_route : bool) : token_type :=
  if refresh_route then refresh else access.

(** A token the library accepts at time [t] as far as signature and
    time go: signed with the configured key, issued and valid no later
    than [t], and not yet expired. *)
Definition token_valid_at (t : Z) (tok : EncodedToken) : Prop :=
  signed_with tok = JWT_SECRET_KEY
  ∧ c_iat (payload tok) ≤ t ∧ c_nbf (payload tok) ≤ t
  ∧ t < c_exp (payload tok).

(** ** migrations/versions/ffc4b5ea7515_increase_password_column_length.py *)

Module Migration.

(** Column types as the revision writes them. *)
Inductive sa_type :=
| INTEGER
| VARCHAR (length : Z)
| String_ (length : Z).

Global Instance sa_type_eq_dec : EqDecision sa_type.
Proof. solve_decision. Defined.

Record Column := mkColumn {
  col_name : string;
  col_type : sa_type;
  col_autoincrement : bool;
  col_nullable : bool
}.

Inductive TableConstraint :=
| PrimaryKeyConstraint (column name : string)
| UniqueConstraint (column name : string).

(** A table: its definition and its stored rows, each row as the text
    values it holds by column name. *)
Record Table := mkTable {
  columns : list Column;
  constraints : list TableConstraint;
  records : list (list (string * string))
}.

(** Whether a stored value fits a column type: a character type bounds
    its length. *)
Definition fits (type_ : sa_type) (v : string) : Prop :=
  match type_ with
  | VARCHAR n | String_ n => Z.of_nat (String.length v) ≤ n
  | INTEGER => True
  end.

Global Instance fits_dec (type_ : sa_type) (v : string) : Decision (fits type_ v).
Proof. destruct type_; simpl; apply _. Defined.

(** Every value stored in [column] fits [type_]. *)
Definition values_fit (column : string) (type_ : sa_type)
    (rs : list (list (string * string))) : Prop :=
  Forall (λ r, Forall (λ kv, kv.1 = column → fits type_ kv.2) r) rs.

Global Instance values_fit_dec (column : string) (type_ : sa_type)
    (rs : list (list (string * string))) : Decision (values_fit column type_ rs).
Proof. unfold values_fit. apply _. Defined.

(** A database schema: its tables by name. *)
Abbreviation Schema := (gmap string Table).

(** [op.drop_table(name)]: an error when there is no such table. *)
Definition drop_table (name : string) (s : Schema) : option Schema :=
  match s !! name with
  | Some _ => Some (delete name s)
  | None => None
  end.

(** [op.create_table(name, ...)]: an error when the table exists. *)
Definition create_table (name : string) (t : Table) (s : Schema) : option Schema :=
  match s !! name with
  | Some _ => None
  | None => Some (<[name := t]> s)
  end.

Definition retype (column : string) (type_ : sa_type) (c : Column) : Column :=
  if decide (col_name c = column)
  then {| col_name := col_name c; col_type := type_;
          col_autoincrement := col_autoincrement c;
          col_nullable := col_nullable c |}
  else c.

(** [batch_op.alter_column(column, existing_type=, type_=,
    existing_nullable=)] inside [op.batch_alter_table(table)]: the
    column gets the new type and the rows stay as they are;
    [existing_type] and [existing_nullable] describe the column as it
    is and change nothing.  An error when the table or the column is
    missing, and when a stored value does not fit the new type. *)
Definition alter_column (table column : string)
    (existing_type type_ : sa_type) (existing_nullable : bool)
    (s : Schema) : option Schema :=
  match s !! table with
  | Some t =>
      if decide (column ∈ col_name <$> columns t)
      then if decide (values_fit column type_ (records t))
           then Some (<[table := {| columns := retype column type_ <$> columns t;
                                    constraints := constraints t;
                                    records := records t |}]> s)
           else None
      else None
  | None => None
  end.

(** A table with its [password] column given the type [type_]. *)
Definition with_password_type (type_ : sa_type) (t : Table) : Table :=
  {| columns := retype "password" type_ <$> columns t;
     constraints := constraints t;
     records := records t |}.

(** [upgrade()] *)
Definition upgrade (s : Schema) : option Schema :=
  s1 ← drop_table "User" s;
  alter_column "users" "password" (VARCHAR 80) (String_ 200) false s1.

(** The table [downgrade()] creates. *)
Definition legacy_User : Table :=
  {| columns :=
       [ mkColumn "id" INTEGER true false;
         mkColumn "username" (VARCHAR 80) false false;
         mkColumn "email" (VARCHAR 120) false false ];
     constraints :=
       [ PrimaryKeyConstraint "id" "User_pkey";
         UniqueConstraint "email" "User_email_key";
         UniqueConstraint "username" "User_username_key" ];
     records := [] |}.

(** [downgrade()] *)
Definition downgrade (s : Schema) : option Schema :=
  s1 ← alter_column "users" "password" (String_ 200) (VARCHAR 80) false s;
  create_table "User" legacy_User s1.


(** A [users] table as it stands before the revision, and a schema
    holding it next to the legacy table. *)
Definition users_80 : Table :=
  {| columns :=
       [ mkColumn "id" INTEGER true false;
         mkColumn "username" (VARCHAR 80) false false;
         mkColumn "password" (VARCHAR 80) false false ];
     constraints :=
       [ PrimaryKeyConstraint "id" "users_pkey";
         UniqueConstraint "username" "users_username_key" ];
     records := [ [("id", "1"); ("username", "alice");
                   ("password", "$wonderland$s1")] ] |}.



Definition schema_before : Schema :=
  <["users" := users_80]> (<["User" := legacy_User]> ∅).

End Migration.

(** ** Concrete requests used in the examples *)

Definition alice : UserData := {| ud_username := "alice"; ud_password := "wonderland" |}.
Definition env0 : Env := {| now := 1000; salt := "s1"; uuid_1 := "jti-a"; uuid_2 := "jti-b" |}.
Definition env1 : Env := {| now := 1060; salt := "s2"; uuid_1 := "jti-c"; uuid_2 := "jti-d" |}.
Definition env2 : Env := {| now := 1120; salt := "s3"; uuid_1 := "jti-e"; uuid_2 := "jti-f" |}.

(** Tokens as a login at [env0] issues them to the user with id 1. *)
Definition access_tok : EncodedToken :=
  create_access_token JWT_SECRET_KEY (now env0) (uuid_1 env0) 1 true.
Definition refresh_tok : EncodedToken :=
  create_refresh_token JWT_SECRET_KEY (now env0) (uuid_2 env0) 1.

(** The world after ["alice"] has registered with the stand-in hasher. *)
Definition world_alice : World :=
  {| db := {| rows := [UserModel.mk 1 "alice" (demo_hash "s1" "wonderland")];
              next_id := 2 |};
     BLOCKLIST := ∅ |}.



(** The library refuses a secret of more than 4096 characters with an
    exception instead of hashing or verifying it.  The interface
    [Pbkdf2Sha256] stands for [hash] and [verify] on the secrets the
    library accepts; statements about a request whose password is
    hashed ask for such a secret. *)
Definition PASSLIB_MAX_PASSWORD_SIZE : nat := 4096.

Definition secret_accepted (secret : string) : Prop :=
  (String.length secret ≤ PASSLIB_MAX_PASSWORD_SIZE)%nat.

Global Instance secret_accepted_dec (secret : string) : Decision (secret_accepted secret).
Proof. unfold secret_accepted. apply _. Defined.




(** A schema as it stands after the revision: [users.password] is
    String(200) and there is no [User] table. *)
Definition schema_after : gmap string Migration.Table :=
  <["users" := Migration.with_password_type (Migration.String_ 200) Migration.users_80]> ∅.


(** A request more than thirty days after [env0]. *)
Definition env_far : Env := {| now := 2600000; salt := "s1"; uuid_1 := "jti-k"; uuid_2 := "jti-l" |}.

(** * Properties *)

(** Decide a closed, decidable proposition by evaluation. *)
Ltac by_compute := apply (bool_decide_unpack _); vm_compute; exact I.

(** A concrete token is valid at a concrete time. *)
Ltac valid_token := unfold token_valid_at; repeat apply conj; by_compute.

(** ** The hasher used in the examples *)




(** ** Look-ups in a list keyed by a projection *)

Section keyed.
Context {A B : Type} `{EqDecision B} (key : A → B).

Lemma filter_key_absent (l : list A) (k : B) :
  k ∉ key <$> l → filter (λ y, key y = k) l = [].
Proof.
  induction l as [|a l IH]; intros Hk; [done|].
  rewrite fmap_cons, not_elem_of_cons in Hk. destruct Hk as [Hne Hk].
  rewrite filter_cons_False by congruence. auto.
Qed.

Lemma filter_key_unique (l : list A) (x : A) :
  NoDup (key <$> l) → x ∈ l → filter (λ y, key y = key x) l = [x].
Proof.
  induction l as [|a l IH]; intros Hnd Hx; [by apply elem_of_nil in Hx|].
  rewrite fmap_cons in Hnd. apply NoDup_cons in Hnd as [Ha Hnd].
  apply elem_of_cons in Hx as [->|Hx].
  - rewrite filter_cons_True by done.
    by rewrite filter_key_absent.
  - rewrite filter_cons_False; [auto|].
    intros Heq. apply Ha. rewrite Heq. by apply list_elem_of_fmap_2.
Qed.

Lemma head_filter_key_None (l : list A) (k : B) :
  head (filter (λ y, key y = k) l) = None ↔ k ∉ key <$> l.
Proof.
  split.
  - intros Hh Hin. apply head_None in Hh.
    apply list_elem_of_fmap in Hin as (y & -> & Hy).
    assert (y ∈ filter (λ z, key z = key y) l) as Hf
      by (apply list_elem_of_filter; done).
    rewrite Hh in Hf. by apply elem_of_nil in Hf.
  - intros Hk. by rewrite filter_key_absent.
Qed.

Lemma head_filter_key_Some (l : list A) (k : B) (x : A) :
  head (filter (λ y, key y = k) l) = Some x → x ∈ l ∧ key x = k.
Proof.
  intros Hh. apply head_Some_elem_of in Hh.
  apply list_elem_of_filter in Hh. tauto.
Qed.

Lemma head_filter_key_unique (l : list A) (x : A) :
  NoDup (key <$> l) → x ∈ l → head (filter (λ y, key y = key x) l) = Some x.
Proof. intros Hnd Hx. by rewrite filter_key_unique. Qed.
End keyed.

(** ** The store *)

Lemma query_by_username_first_None (s : Store) (name : string) :
  query_by_username_first s name = None ↔ name ∉ UserModel.username <$> rows s.
Proof. apply head_filter_key_None. Qed.

Lemma query_by_username_first_Some (s : Store) (name : string) (u : UserModel.t) :
  query_by_username_first s name = Some u → u ∈ rows s ∧ UserModel.username u = name.
Proof. apply head_filter_key_Some. Qed.

Lemma query_by_username_first_stored (s : Store) (u : UserModel.t) :
  Store_wf s → u ∈ rows s →
  query_by_username_first s (UserModel.username u) = Some u.
Proof. intros [Hn _ _ _] Hu. by apply head_filter_key_unique. Qed.

Lemma query_get_None (s : Store) (user_id : Z) :
  query_get s user_id = None ↔ user_id ∉ UserModel.id <$> rows s.
Proof. apply head_filter_key_None. Qed.

Lemma query_get_Some (s : Store) (user_id : Z) (u : UserModel.t) :
  query_get s user_id = Some u → u ∈ rows s ∧ UserModel.id u = user_id.
Proof. apply head_filter_key_Some. Qed.


Lemma count_username_stored (s : Store) (u : UserModel.t) :
  Store_wf s → u ∈ rows s → count_username s (UserModel.username u) = 1%nat.
Proof.
  intros [Hn _ _ _] Hu. unfold count_username.
  by rewrite (filter_key_unique UserModel.username).
Qed.


Lemma session_add_commit_taken (s : Store) (name pw : string) :
  (String.length name ≤ USERNAME_MAX)%nat →
  name ∈ UserModel.username <$> rows s →
  session_add_commit s name pw = inl (IntegrityError "users_username_key").
Proof.
  intros Hfits Htaken. unfold session_add_commit.
  rewrite decide_False by lia. by rewrite decide_True.
Qed.


Lemma empty_store_wf : Store_wf empty_store.
Proof.
  split; simpl;
    [apply NoDup_nil_2 | apply NoDup_nil_2 | apply Forall_nil_2 | apply Forall_nil_2].
Qed.

Lemma session_add_commit_wf (s s' : Store) (name pw : string) :
  Store_wf s → session_add_commit s name pw = inr s' → Store_wf s'.
Proof.
  intros [Hn Hi Hlt Hw]. unfold session_add_commit.
  destruct (decide _) as [|Hfits]; [done|].
  destruct (decide _) as [|Hfree]; [done|]. intros [= <-].
  split; simpl.
  - rewrite fmap_app. apply NoDup_app. split; [done|]. split.
    + intros x Hx Hx'. apply list_elem_of_singleton in Hx'. by subst.
    + apply NoDup_singleton.
  - rewrite fmap_app. apply NoDup_app. split; [done|]. split.
    + intros x Hx Hx'. apply list_elem_of_singleton in Hx'. subst x.
      apply list_elem_of_fmap in Hx as (u & Hid & Hu).
      rewrite Forall_forall in Hlt. specialize (Hlt u Hu). simpl in Hid. lia.
    + apply NoDup_singleton.
  - apply Forall_app. split.
    + eapply Forall_impl; [exact Hlt|]. simpl. intros; lia.
    + apply Forall_singleton. simpl. lia.
  - apply Forall_app. split; [done|].
    apply Forall_singleton. simpl. lia.
Qed.

Lemma session_delete_commit_wf (s : Store) (u : UserModel.t) :
  Store_wf s → Store_wf (session_delete_commit s u).
Proof.
  intros [Hn Hi Hlt Hw]. split; simpl.
  - eapply sublist_NoDup; [exact Hn|]. apply fmap_sublist, sublist_filter.
  - eapply sublist_NoDup; [exact Hi|]. apply fmap_sublist, sublist_filter.
  - rewrite Forall_forall in *. intros x Hx.
    apply list_elem_of_filter in Hx. apply Hlt. tauto.
  - rewrite Forall_forall in *. intros x Hx.
    apply list_elem_of_filter in Hx. apply Hw. tauto.
Qed.

Lemma session_delete_commit_gone (s : Store) (u : UserModel.t) :
  UserModel.id u ∉ UserModel.id <$> rows (session_delete_commit s u).
Proof.
  simpl. intros Hin. apply list_elem_of_fmap in Hin as (x & Hid & Hx).
  apply list_elem_of_filter in Hx as [Hne _]. congruence.
Qed.

Lemma world_alice_wf : Store_wf (db world_alice).
Proof.
  split; simpl.
  - apply NoDup_singleton.
  - apply NoDup_singleton.
  - apply Forall_singleton. simpl. lia.
  - apply Forall_singleton. by_compute.
Qed.

(** ** The handlers keep the storage invariant *)

Section invariant.
Context `{Pbkdf2Sha256}.

Lemma initial_world_wf : Store_wf (db initial_world).
Proof. apply empty_store_wf. Qed.

Lemma dispatch_wf (w : World) (env : Env) (r : request) :
  Store_wf (db w) → Store_wf (db (dispatch w env r).1).
Proof.
  intros Hwf. destruct r as [d|d|a|i|i|a]; simpl.
  - unfold UserRegister_post, UserRegister_check, UserRegister_insert.
    destruct (query_by_username_first _ _); [done|].
    destruct (session_add_commit _ _ _) as [e|s'] eqn:Hc; [done|].
    simpl. by eapply session_add_commit_wf.
  - unfold UserLogin_post.
    destruct (query_by_username_first _ _); [|done].
    by destruct (pbkdf2_sha256_verify _ _).
  - unfold UserLogout_post. by destruct (jwt_required _ _ _ _).
  - unfold User_get. by destruct (query_get _ _).
  - unfold User_delete. destruct (query_get _ _); [|done].
    simpl. by apply session_delete_commit_wf.
  - unfold TokenRefresh_post. by destruct (jwt_required _ _ _ _).
Qed.

Lemma serve_wf (w : World) (trace : list (Env * request)) :
  Store_wf (db w) → Store_wf (db (serve w trace)).
Proof.
  revert w. induction trace as [|[env r] rest IH]; intros w Hwf; [done|].
  simpl. apply IH. by apply dispatch_wf.
Qed.
End invariant.

(** ** Register *)




(** ** Login *)

Section login.
Context `{Pbkdf2Sha256}.


End login.



(** C3. A login naming a stored user with a password that verifies
    against the stored hash is answered 200 with an access token and a
    refresh token that differ; the access token is fresh and carries the
    user's id as identity, the refresh token carries the same id, and
    the world is left as it was. *)
Theorem UserLogin_post_success `{Pbkdf2Sha256}
    (w : World) (env : Env) (user_data : UserData) (u : UserModel.t) :
  Store_wf (db w) → u ∈ rows (db w) →
  UserModel.username u = ud_username user_data →
  pbkdf2_sha256_verify (ud_password user_data) (UserModel.password u) = true →
  ∃ access_token refresh_token : EncodedToken,
    UserLogin_post w env user_data =
      (w, Response [("access_token", VJwt access_token);
                    ("refresh_token", VJwt refresh_token)] 200)
    ∧ access_token
      = create_access_token JWT_SECRET_KEY (now env) (uuid_1 env) (UserModel.id u) true
    ∧ refresh_token
      = create_refresh_token JWT_SECRET_KEY (now env) (uuid_2 env) (UserModel.id u)
    ∧ access_token ≠ refresh_token
    ∧ c_type (payload access_token) = access
    ∧ c_fresh (payload access_token) = true
    ∧ c_sub (payload access_token) = UserModel.id u
    ∧ c_type (payload refresh_token) = refresh
    ∧ c_sub (payload refresh_token) = UserModel.id u
    ∧ token_valid_at (now env) access_token
    ∧ token_valid_at (now env) refresh_token.
Proof.
  intros Hwf Hu Hname Hver.
  eexists _, _. split.
  - unfold UserLogin_post.
    rewrite <- Hname, (query_by_username_first_stored _ _ Hwf Hu).
    rewrite Hver. reflexivity.
  - split; [done|]. split; [done|]. split; [intros [=]|].
    repeat split; simpl;
      unfold JWT_ACCESS_TOKEN_EXPIRES, JWT_REFRESH_TOKEN_EXPIRES; lia.
Qed.

Lemma UserLogin_post_success_witness :
  ∃ access_token refresh_token : EncodedToken,
    @UserLogin_post demo_hasher world_alice env1 alice =
      (world_alice, Response [("access_token", VJwt access_token);
                              ("refresh_token", VJwt refresh_token)] 200)
    ∧ access_token ≠ refresh_token.
Proof.
  destruct (@UserLogin_post_success demo_hasher world_alice env1 alice
              (UserModel.mk 1 "alice" (demo_hash "s1" "wonderland"))
              world_alice_wf ltac:(by_compute) eq_refl eq_refl)
    as (a & r & Hpost & _ & _ & Hne & _).
  exists a, r. split; assumption.
Defined.

(** ** The checks of a protected route *)

Lemma decode_token_valid (t : Z) (tok : EncodedToken) :
  token_valid_at t tok → decode_token JWT_SECRET_KEY t tok = inr (payload tok).
Proof.
  intros (Hsig & Hiat & Hnbf & Hexp). unfold decode_token.
  rewrite bool_decide_eq_true_2 by done.
  by rewrite !bool_decide_eq_false_2 by lia.
Qed.

Lemma verify_token_type_ok (c : Claims) (refresh_route : bool) :
  c_type c = required_type refresh_route →
  verify_token_type c refresh_route = inr ().
Proof. unfold verify_token_type. by destruct refresh_route, (c_type c). Qed.

Lemma verify_token_type_wrong (c : Claims) (refresh_route : bool) :
  c_type c ≠ required_type refresh_route →
  verify_token_type c refresh_route = inl WrongTokenError.
Proof. unfold verify_token_type. by destruct refresh_route, (c_type c). Qed.

Lemma jwt_required_accepts (w : World) (env : Env) (tok : EncodedToken)
    (refresh_route : bool) :
  token_valid_at (now env) tok →
  c_type (payload tok) = required_type refresh_route →
  c_jti (payload tok) ∉ BLOCKLIST w →
  jwt_required w env (Some (Bearer tok)) refresh_route = inr (payload tok).
Proof.
  intros Hv Hty Hnb. unfold jwt_required, verify_jwt_in_request.
  rewrite (decode_token_valid _ _ Hv), (verify_token_type_ok _ _ Hty). simpl.
  unfold check_if_token_in_blocklist. by rewrite bool_decide_eq_false_2.
Qed.

Lemma jwt_required_revoked (w : World) (env : Env) (tok : EncodedToken)
    (refresh_route : bool) :
  token_valid_at (now env) tok →
  c_type (payload tok) = required_type refresh_route →
  c_jti (payload tok) ∈ BLOCKLIST w →
  jwt_required w env (Some (Bearer tok)) refresh_route = inl revoked_token_callback.
Proof.
  intros Hv Hty Hb. unfold jwt_required, verify_jwt_in_request.
  rewrite (decode_token_valid _ _ Hv), (verify_token_type_ok _ _ Hty). simpl.
  unfold check_if_token_in_blocklist. by rewrite bool_decide_eq_true_2.
Qed.

Lemma jwt_required_wrong_type (w : World) (env : Env) (tok : EncodedToken)
    (refresh_route : bool) :
  token_valid_at (now env) tok →
  c_type (payload tok) ≠ required_type refresh_route →
  jwt_required w env (Some (Bearer tok)) refresh_route = inl invalid_token_callback.
Proof.
  intros Hv Hty. unfold jwt_required, verify_jwt_in_request.
  by rewrite (decode_token_valid _ _ Hv), (verify_token_type_wrong _ _ Hty).
Qed.

(** Every refusal of a protected route is a 401. *)
Lemma jwt_error_handler_401 (e : jwt_exn) : status_code (jwt_error_handler e) = 401.
Proof. by destruct e. Qed.

Lemma jwt_required_refusal_401 (w : World) (env : Env) (a : option bearer)
    (refresh_route : bool) (o : outcome) :
  jwt_required w env a refresh_route = inl o → status_code o = 401.
Proof.
  unfold jwt_required.
  destruct (verify_jwt_in_request _ _ _ _ _ _) as [e|c]; [|done].
  intros [= <-]. apply jwt_error_handler_401.
Qed.

(** A token whose identifier is in the registry is refused by both
    protected routes, whatever else holds of it. *)
Lemma jwt_required_blocklisted (w : World) (env : Env) (tok : EncodedToken)
    (refresh_route : bool) :
  c_jti (payload tok) ∈ BLOCKLIST w →
  ∃ o, jwt_required w env (Some (Bearer tok)) refresh_route = inl o.
Proof.
  intros Hb. unfold jwt_required, verify_jwt_in_request.
  destruct (decode_token _ _ _) as [e|c] eqn:Hd; [by eexists|].
  assert (c = payload tok) as ->.
  { unfold decode_token in Hd. repeat case_bool_decide; congruence. }
  destruct (verify_token_type _ _) as [e|[]]; [by eexists|]. simpl.
  unfold check_if_token_in_blocklist. rewrite bool_decide_eq_true_2 by done.
  by eexists.
Qed.

(** The protected routes read the registry and the token, not the
    database. *)
Lemma jwt_required_ignores_db (w1 w2 : World) (env : Env) (a : option bearer)
    (refresh_route : bool) :
  BLOCKLIST w1 = BLOCKLIST w2 →
  jwt_required w1 env a refresh_route = jwt_required w2 env a refresh_route.
Proof.
  intros Hb. unfold jwt_required, verify_jwt_in_request, check_if_token_in_blocklist.
  by rewrite Hb.
Qed.

(** ** The registry only grows *)

Lemma BLOCKLIST_add_present (jti : string) (w : World) :
  jti ∈ BLOCKLIST w → BLOCKLIST_add jti w = w.
Proof.
  intros Hin. destruct w as [s B]. unfold BLOCKLIST_add. simpl in *.
  f_equal. apply subseteq_union_1_L. set_solver.
Qed.

Lemma BLOCKLIST_add_elem (jti : string) (w : World) :
  jti ∈ BLOCKLIST (BLOCKLIST_add jti w).
Proof. simpl. set_solver. Qed.

Section registry.
Context `{Pbkdf2Sha256}.

(** What a request does to the registry: nothing, or, for a logout or
    a refresh that passed its checks, the insertion of the [jti] of
    the token it carries. *)
Lemma dispatch_BLOCKLIST (w : World) (env : Env) (r : request) :
  BLOCKLIST (dispatch w env r).1 = BLOCKLIST w
  ∨ ∃ tok, (r = POST_logout (Some (Bearer tok)) ∨ r = POST_refresh (Some (Bearer tok)))
           ∧ BLOCKLIST (dispatch w env r).1 = {[ c_jti (payload tok) ]} ∪ BLOCKLIST w.
Proof.
  destruct r as [d|d|a|i|i|a]; simpl.
  - left. unfold UserRegister_post, UserRegister_check, UserRegister_insert.
    destruct (query_by_username_first _ _); [done|].
    by destruct (session_add_commit _ _ _).
  - left. unfold UserLogin_post.
    destruct (query_by_username_first _ _); [|done].
    by destruct (pbkdf2_sha256_verify _ _).
  - unfold UserLogout_post.
    destruct (jwt_required w env a false) as [o|c] eqn:Hj; [by left|].
    right. unfold jwt_required, verify_jwt_in_request in Hj.
    destruct a as [[raw|tok]|]; try done. exists tok. split; [by left|].
    destruct (decode_token _ _ _) as [e|c'] eqn:Hd; [done|].
    assert (c' = payload tok) as ->.
    { unfold decode_token in Hd. repeat case_bool_decide; congruence. }
    destruct (verify_token_type _ _) as [e|[]]; [done|]. simpl in Hj.
    destruct (check_if_token_in_blocklist _ _); by simplify_eq.
  - left. unfold User_get. by destruct (query_get _ _).
  - left. unfold User_delete. by destruct (query_get _ _).
  - unfold TokenRefresh_post.
    destruct (jwt_required w env a true) as [o|c] eqn:Hj; [by left|].
    right. unfold jwt_required, verify_jwt_in_request in Hj.
    destruct a as [[raw|tok]|]; try done. exists tok. split; [by right|].
    destruct (decode_token _ _ _) as [e|c'] eqn:Hd; [done|].
    assert (c' = payload tok) as ->.
    { unfold decode_token in Hd. repeat case_bool_decide; congruence. }
    destruct (verify_token_type _ _) as [e|[]]; [done|]. simpl in Hj.
    destruct (check_if_token_in_blocklist _ _); by simplify_eq.
Qed.

Lemma dispatch_BLOCKLIST_mono (w : World) (env : Env) (r : request) :
  BLOCKLIST w ⊆ BLOCKLIST (dispatch w env r).1.
Proof.
  destruct (dispatch_BLOCKLIST w env r) as [->|(tok & _ & ->)]; set_solver.
Qed.

Lemma serve_BLOCKLIST_mono (w : World) (trace : list (Env * request)) :
  BLOCKLIST w ⊆ BLOCKLIST (serve w trace).
Proof.
  revert w. induction trace as [|[env r] rest IH]; intros w; [done|].
  simpl. etrans; [apply (dispatch_BLOCKLIST_mono w env r)|apply IH].
Qed.
End registry.

(** C7. The Revocation Registry grows monotonically: a request leaves
    it as it was unless it is a logout or a refresh, which at most
    insert the identifier of the token they carry; so no request, and
    no sequence of requests, removes an identifier.  Adding an
    identifier is a total operation, and adding one that is present
    leaves the world, registry included, unchanged. *)
Theorem BLOCKLIST_grows_monotonically `{Pbkdf2Sha256} :
  (∀ w env r,
     BLOCKLIST w ⊆ BLOCKLIST (dispatch w env r).1
     ∧ match r with
       | POST_logout a | POST_refresh a =>
           BLOCKLIST (dispatch w env r).1 = BLOCKLIST w
           ∨ ∃ tok, a = Some (Bearer tok)
                    ∧ BLOCKLIST (dispatch w env r).1
                      = BLOCKLIST (BLOCKLIST_add (c_jti (payload tok)) w)
       | _ => BLOCKLIST (dispatch w env r).1 = BLOCKLIST w
       end)
  ∧ (∀ w trace, BLOCKLIST w ⊆ BLOCKLIST (serve w trace))
  ∧ (∀ w jti, jti ∈ BLOCKLIST w → BLOCKLIST_add jti w = w)
  ∧ (∀ w jti, BLOCKLIST_add jti (BLOCKLIST_add jti w) = BLOCKLIST_add jti w).
Proof.
  split; [|split; [|split]].
  - intros w env r. split; [apply dispatch_BLOCKLIST_mono|].
    destruct (dispatch_BLOCKLIST w env r) as [Heq|(tok & Hr & Heq)].
    + destruct r; auto.
    + destruct Hr as [->| ->]; right; exists tok; done.
  - intros w trace. apply serve_BLOCKLIST_mono.
  - intros w jti. apply BLOCKLIST_add_present.
  - intros w jti. apply BLOCKLIST_add_present, BLOCKLIST_add_elem.
Qed.

Lemma BLOCKLIST_grows_monotonically_witness :
  BLOCKLIST_add "jti-a" (BLOCKLIST_add "jti-a" world_alice)
    = BLOCKLIST_add "jti-a" world_alice.
Proof.
  apply (proj1 (proj2 (proj2 (@BLOCKLIST_grows_monotonically demo_hasher)))).
  apply BLOCKLIST_add_elem.
Defined.

(** ** Logout *)

Section protected.
Context `{Pbkdf2Sha256}.

Lemma UserLogout_post_accepts (w : World) (env : Env) (tok : EncodedToken) :
  token_valid_at (now env) tok → c_type (payload tok) = access →
  c_jti (payload tok) ∉ BLOCKLIST w →
  UserLogout_post w env (Some (Bearer tok)) =
    (BLOCKLIST_add (c_jti (payload tok)) w,
     Response [("message", VStr "Successfully logged out")] 200).
Proof.
  intros Hv Hty Hnb. unfold UserLogout_post.
  by rewrite (jwt_required_accepts w env tok false Hv Hty Hnb).
Qed.

Lemma TokenRefresh_post_accepts (w : World) (env : Env) (tok : EncodedToken) :
  token_valid_at (now env) tok → c_type (payload tok) = refresh →
  c_jti (payload tok) ∉ BLOCKLIST w →
  TokenRefresh_post w env (Some (Bearer tok)) =
    (BLOCKLIST_add (c_jti (payload tok)) w,
     Response [("access_token",
                VJwt (create_access_token JWT_SECRET_KEY (now env) (uuid_1 env)
                        (c_sub (payload tok)) false))] 200).
Proof.
  intros Hv Hty Hnb. unfold TokenRefresh_post.
  by rewrite (jwt_required_accepts w env tok true Hv Hty Hnb).
Qed.

(** Once an identifier is in the registry it is there after any
    further requests. *)
Lemma revoked_stays_revoked (w : World) (jti : string)
    (trace : list (Env * request)) :
  jti ∈ BLOCKLIST (serve (BLOCKLIST_add jti w) trace).
Proof.
  apply (serve_BLOCKLIST_mono (BLOCKLIST_add jti w) trace), BLOCKLIST_add_elem.
Qed.


Lemma TokenRefresh_post_blocklisted_401 (w : World) (env : Env) (tok : EncodedToken) :
  c_jti (payload tok) ∈ BLOCKLIST w →
  status_code (TokenRefresh_post w env (Some (Bearer tok))).2 = 401.
Proof.
  intros Hb. unfold TokenRefresh_post.
  destruct (jwt_required_blocklisted w env tok true Hb) as [o Ho].
  rewrite Ho. simpl. by eapply jwt_required_refusal_401.
Qed.
End protected.




(** ** Refresh *)

(** C5, as the code has it.  Refresh accepts refresh tokens only: a
    valid access token is refused with 401.  A valid refresh token that
    is not revoked is answered 200 with a new access token for the same
    identity whose fresh claim is false, and its own [jti] is added to
    the registry; so, after any further requests, presenting the same
    refresh token again is refused with 401: the token is single-use.
    While the token is unexpired the refusal carries the error code
    "token_revoked"; once it has expired it carries "token_expired",
    the expiry being checked before the registry. *)
Theorem TokenRefresh_post_spec `{Pbkdf2Sha256}
    (w : World) (env : Env) (tok : EncodedToken) :
  token_valid_at (now env) tok →
  (c_type (payload tok) = access →
     TokenRefresh_post w env (Some (Bearer tok)) = (w, invalid_token_callback)
     ∧ status_code (TokenRefresh_post w env (Some (Bearer tok))).2 = 401)
  ∧ (c_type (payload tok) = refresh →
     c_jti (payload tok) ∉ BLOCKLIST w →
     ∃ new_token : EncodedToken,
       TokenRefresh_post w env (Some (Bearer tok)) =
         (BLOCKLIST_add (c_jti (payload tok)) w,
          Response [("access_token", VJwt new_token)] 200)
       ∧ c_type (payload new_token) = access
       ∧ c_fresh (payload new_token) = false
       ∧ c_sub (payload new_token) = c_sub (payload tok)
       ∧ token_valid_at (now env) new_token
       ∧ c_jti (payload tok) ∈ BLOCKLIST (TokenRefresh_post w env (Some (Bearer tok))).1
       ∧ ∀ (trace : list (Env * request)) (env' : Env),
           let w' := serve (TokenRefresh_post w env (Some (Bearer tok))).1 trace in
           status_code (TokenRefresh_post w' env' (Some (Bearer tok))).2 = 401
           ∧ (token_valid_at (now env') tok →
                TokenRefresh_post w' env' (Some (Bearer tok))
                  = (w', revoked_token_callback)
                ∧ error_code (TokenRefresh_post w' env' (Some (Bearer tok))).2
                  = Some "token_revoked")
           ∧ (now env ≤ now env' → c_exp (payload tok) ≤ now env' →
                TokenRefresh_post w' env' (Some (Bearer tok))
                  = (w', expired_token_callback)
                ∧ error_code (TokenRefresh_post w' env' (Some (Bearer tok))).2
                  = Some "token_expired")).
Proof.
  intros Hv. split.
  - intros Hty. unfold TokenRefresh_post.
    rewrite (jwt_required_wrong_type w env tok true Hv); [done|].
    rewrite Hty. done.
  - intros Hty Hnb.
    rewrite (TokenRefresh_post_accepts w env tok Hv Hty Hnb).
    eexists. split; [reflexivity|]. simpl.
    split; [done|]. split; [done|]. split; [done|].
    split; [split; [done|simpl; unfold JWT_ACCESS_TOKEN_EXPIRES; lia]|].
    split; [apply (BLOCKLIST_add_elem (c_jti (payload tok)) w)|].
    intros trace env'.
    pose proof (revoked_stays_revoked w (c_jti (payload tok)) trace) as Hb.
    split; [by apply TokenRefresh_post_blocklisted_401|]. split.
    + intros Hv'. unfold TokenRefresh_post.
      by rewrite (jwt_required_revoked _ env' tok true Hv' Hty Hb).
    + intros Hlater Hexp. destruct Hv as (Hsig & Hiat & Hnbf & _).
      unfold TokenRefresh_post, jwt_required, verify_jwt_in_request, decode_token.
      rewrite bool_decide_eq_true_2 by done.
      rewrite !bool_decide_eq_false_2 by lia.
      by rewrite bool_decide_eq_true_2.
Qed.

Lemma TokenRefresh_post_spec_witness :
  TokenRefresh_post world_alice env1 (Some (Bearer access_tok))
    = (world_alice, invalid_token_callback)
  ∧ error_code
      (TokenRefresh_post
         (@serve demo_hasher
            (TokenRefresh_post world_alice env1 (Some (Bearer refresh_tok))).1
            [(env1, POST_login alice)])
         env2 (Some (Bearer refresh_tok))).2
    = Some "token_revoked"
  ∧ error_code
      (TokenRefresh_post
         (@serve demo_hasher
            (TokenRefresh_post world_alice env1 (Some (Bearer refresh_tok))).1
            [(env1, POST_login alice)])
         env_far (Some (Bearer refresh_tok))).2
    = Some "token_expired".
Proof.
  assert (token_valid_at (now env1) access_tok) as Hva by valid_token.
  assert (token_valid_at (now env1) refresh_tok) as Hvr by valid_token.
  assert (token_valid_at (now env2) refresh_tok) as Hvr' by valid_token.
  destruct (@TokenRefresh_post_spec demo_hasher world_alice env1 access_tok Hva)
    as [Hacc _].
  destruct (@TokenRefresh_post_spec demo_hasher world_alice env1 refresh_tok Hvr)
    as [_ Href].
  split; [exact (proj1 (Hacc eq_refl))|].
  destruct (Href eq_refl ltac:(by_compute)) as (new_token & _ & _ & _ & _ & _ & _ & Hlater).
  split.
  - destruct (Hlater [(env1, POST_login alice)] env2) as (_ & Hrev & _).
    exact (proj2 (Hrev Hvr')).
  - destruct (Hlater [(env1, POST_login alice)] env_far) as (_ & _ & Hexp).
    exact (proj2 (Hexp ltac:(by_compute) ltac:(by_compute))).
Defined.

(** C5 as stated fails once the refresh token has expired.  The
    refresh token of the login at [env0] is used at [env1] and
    answered 200; presented again more than thirty days later, it is
    refused with "token_expired", not "token_revoked". *)
Lemma TokenRefresh_post_replay_expired :
  token_valid_at (now env1) refresh_tok
  ∧ (c_jti (payload refresh_tok) ∉ BLOCKLIST world_alice)
  ∧ TokenRefresh_post world_alice env1 (Some (Bearer refresh_tok))
    = (BLOCKLIST_add "jti-b" world_alice,
       Response [("access_token",
                  VJwt (create_access_token JWT_SECRET_KEY 1060 "jti-c" 1 false))] 200)
  ∧ TokenRefresh_post (BLOCKLIST_add "jti-b" world_alice) env_far
      (Some (Bearer refresh_tok))
    = (BLOCKLIST_add "jti-b" world_alice,
       Response [("message", VStr "The token has expired.");
                 ("error", VStr "token_expired")] 401).
Proof.
  split; [valid_token|]. split; [by_compute|].
  split; reflexivity.
Qed.

(** ** Register when the commit fails *)

Lemma UserRegister_post_409_iff `{Pbkdf2Sha256}
    (w : World) (env : Env) (user_data : UserData) :
  status_code (UserRegister_post w env user_data).2 = 409
  ↔ ud_username user_data ∈ UserModel.username <$> rows (db w).
Proof.
  unfold UserRegister_post, UserRegister_check, UserRegister_insert.
  destruct (query_by_username_first _ _) as [u|] eqn:Hq.
  - apply query_by_username_first_Some in Hq as [Hu <-].
    split; [intros _; by apply list_elem_of_fmap_2|done].
  - apply query_by_username_first_None in Hq.
    destruct (session_add_commit _ _ _) as [e|s']; simpl; (split; [lia|done]).
Qed.

(** C6, as the code has it.  When the insert-and-commit of Register
    fails at the persistence layer, the failure is not translated: the
    storage exception leaves the view unhandled, which is answered as a
    server error (500), and the world is left as it was.  A 409 comes
    from the pre-check alone: Register answers 409 exactly when the
    username is found stored at the time of the look-up. *)
Theorem UserRegister_insert_failure_unhandled `{Pbkdf2Sha256}
    (w : World) (env : Env) (user_data : UserData) (e : storage_exn) :
  session_add_commit (db w) (ud_username user_data)
    (pbkdf2_sha256_hash (salt env) (ud_password user_data)) = inl e →
  UserRegister_insert w env user_data = (w, Unhandled e)
  ∧ status_code (UserRegister_insert w env user_data).2 = 500
  ∧ (∀ w0 e0 d0,
       status_code (UserRegister_post w0 e0 d0).2 = 409
       ↔ UserRegister_check w0 d0
         = Some (Abort 409 (Some "A user with that username already exists."))).
Proof.
  intros Hfail. unfold UserRegister_insert. rewrite Hfail.
  split; [done|]. split; [done|].
  intros w0 e0 d0. rewrite UserRegister_post_409_iff.
  unfold UserRegister_check.
  destruct (query_by_username_first _ _) as [u|] eqn:Hq.
  - apply query_by_username_first_Some in Hq as [Hu <-].
    split; [done|intros _; by apply list_elem_of_fmap_2].
  - apply query_by_username_first_None in Hq. split; [done|discriminate].
Qed.

Lemma UserRegister_insert_failure_unhandled_witness :
  @UserRegister_insert demo_hasher world_alice env1 alice
    = (world_alice, Unhandled (IntegrityError "users_username_key")).
Proof.
  apply (@UserRegister_insert_failure_unhandled demo_hasher world_alice env1 alice).
  reflexivity.
Defined.

(** C6 as stated fails.  Two register requests for the same free
    username both pass the look-up before either has committed; the
    first insert is answered 201, and the commit of the second violates
    the unique constraint: the exception escapes and the answer is a
    500, not a 409. *)
Lemma UserRegister_race_not_409 :
  @UserRegister_check initial_world alice = None
  ∧ @UserRegister_insert demo_hasher initial_world env0 alice
    = (world_alice, Response [("message", VStr "User created successfully.")] 201)
  ∧ session_add_commit (db world_alice) (ud_username alice)
      (@pbkdf2_sha256_hash demo_hasher (salt env1) (ud_password alice))
    = inl (IntegrityError "users_username_key")
  ∧ @UserRegister_insert demo_hasher world_alice env1 alice
    = (world_alice, Unhandled (IntegrityError "users_username_key"))
  ∧ status_code (@UserRegister_insert demo_hasher world_alice env1 alice).2 = 500
  ∧ status_code (@UserRegister_insert demo_hasher world_alice env1 alice).2 ≠ 409.
Proof. repeat split; try reflexivity. simpl. lia. Qed.

(** ** Get and delete a user *)

(** C8. For the id of a stored user, Get User answers 200 with a body
    made of exactly the members [id] and [username], those of a stored
    user with that id, and no [password] member; for an id of no stored
    user, Get User and Delete User both answer 404 and leave the world
    as it was.  After a successful delete the id is such an id. *)
Theorem User_get_delete_spec (w : World) (user_id : Z) :
  (user_id ∈ UserModel.id <$> rows (db w) →
     ∃ u b, u ∈ rows (db w) ∧ UserModel.id u = user_id
       ∧ User_get w user_id = (w, Response b 200)
       ∧ b = [("id", VInt user_id); ("username", VStr (UserModel.username u))]
       ∧ keys b = ["id"; "username"]
       ∧ ("password" ∉ keys b)
       ∧ status_code (User_delete w user_id).2 = 200
       ∧ user_id ∉ UserModel.id <$> rows (db (User_delete w user_id).1))
  ∧ (user_id ∉ UserModel.id <$> rows (db w) →
       User_get w user_id = (w, Abort 404 None)
       ∧ User_delete w user_id = (w, Abort 404 None)
       ∧ status_code (User_get w user_id).2 = 404
       ∧ status_code (User_delete w user_id).2 = 404).
Proof.
  unfold User_get, User_delete. split.
  - intros Hin. destruct (query_get (db w) user_id) as [u|] eqn:Hq.
    + destruct (query_get_Some _ _ _ Hq) as [Hu Hid].
      exists u, (UserSchema_dump u). unfold UserSchema_dump. rewrite Hid.
      split; [done|]. split; [done|]. split; [done|]. split; [done|].
      split; [done|]. split; [by_compute|]. split; [done|].
      simpl. rewrite <- Hid. apply session_delete_commit_gone.
    + apply query_get_None in Hq. done.
  - intros Hout. apply query_get_None in Hout. by rewrite Hout.
Qed.

Lemma User_get_delete_spec_witness :
  User_get world_alice 7 = (world_alice, Abort 404 None)
  ∧ ∃ u b, u ∈ rows (db world_alice) ∧ UserModel.id u = 1
      ∧ User_get world_alice 1 = (world_alice, Response b 200)
      ∧ keys b = ["id"; "username"].
Proof.
  destruct (User_get_delete_spec world_alice 7) as [_ Hnone].
  destruct (User_get_delete_spec world_alice 1) as [Hsome _].
  split; [exact (proj1 (Hnone ltac:(by_compute)))|].
  destruct (Hsome ltac:(by_compute)) as (u & b & Hu & Hid & Hget & _ & Hkeys & _).
  exists u, b. repeat split; assumption.
Defined.

(** ** Deleting a user and the tokens issued to it *)

(** C10. Deleting a user leaves the registry as it was, and with it the
    answer of the revocation check and of both protected routes to any
    request: these read the registry and the claims of the token, never
    the user store.  So a token of the deleted user that was valid and
    not revoked is still accepted: an access token by logout, a refresh
    token by refresh, which issues a new access token for the deleted
    id. *)
Theorem User_delete_frame (w : World) (user_id : Z) :
  let w' := (User_delete w user_id).1 in
  BLOCKLIST w' = BLOCKLIST w
  ∧ (∀ c, check_if_token_in_blocklist w' c = check_if_token_in_blocklist w c)
  ∧ (∀ env a, (UserLogout_post w' env a).2 = (UserLogout_post w env a).2
              ∧ BLOCKLIST (UserLogout_post w' env a).1
                = BLOCKLIST (UserLogout_post w env a).1)
  ∧ (∀ env a, (TokenRefresh_post w' env a).2 = (TokenRefresh_post w env a).2
              ∧ BLOCKLIST (TokenRefresh_post w' env a).1
                = BLOCKLIST (TokenRefresh_post w env a).1)
  ∧ (∀ env tok,
       token_valid_at (now env) tok → c_sub (payload tok) = user_id →
       c_jti (payload tok) ∉ BLOCKLIST w →
       (c_type (payload tok) = access →
          status_code (UserLogout_post w' env (Some (Bearer tok))).2 = 200)
       ∧ (c_type (payload tok) = refresh →
            (TokenRefresh_post w' env (Some (Bearer tok))).2 =
              Response [("access_token",
                         VJwt (create_access_token JWT_SECRET_KEY (now env)
                                 (uuid_1 env) user_id false))] 200)).
Proof.
  intros w'.
  assert (BLOCKLIST w' = BLOCKLIST w) as Hb.
  { subst w'. unfold User_delete. by destruct (query_get _ _). }
  split; [done|]. split.
  { intros c. unfold check_if_token_in_blocklist. by rewrite Hb. }
  split.
  { intros env a. unfold UserLogout_post.
    rewrite (jwt_required_ignores_db w' w env a false Hb).
    destruct (jwt_required w env a false); simpl; [done|by rewrite Hb]. }
  split.
  { intros env a. unfold TokenRefresh_post.
    rewrite (jwt_required_ignores_db w' w env a true Hb).
    destruct (jwt_required w env a true); simpl; [done|by rewrite Hb]. }
  intros env tok Hv Hsub Hnb. rewrite <- Hb in Hnb. split; intros Hty.
  - by rewrite (UserLogout_post_accepts w' env tok Hv Hty Hnb).
  - rewrite (TokenRefresh_post_accepts w' env tok Hv Hty Hnb). simpl.
    by rewrite Hsub.
Qed.

Lemma User_delete_frame_witness :
  rows (db (User_delete world_alice 1).1) = []
  ∧ status_code
      (UserLogout_post (User_delete world_alice 1).1 env1
         (Some (Bearer access_tok))).2 = 200
  ∧ (TokenRefresh_post (User_delete world_alice 1).1 env1
       (Some (Bearer refresh_tok))).2
    = Response [("access_token",
                 VJwt (create_access_token JWT_SECRET_KEY (now env1)
                         (uuid_1 env1) 1 false))] 200.
Proof.
  split; [reflexivity|].
  destruct (User_delete_frame world_alice 1) as (_ & _ & _ & _ & Hkept).
  split.
  - apply (Hkept env1 access_tok).
    + valid_token.
    + reflexivity.
    + by_compute.
    + reflexivity.
  - apply (Hkept env1 refresh_tok).
    + valid_token.
    + reflexivity.
    + by_compute.
    + reflexivity.
Defined.

(** ** The migration *)

Import Migration.

Lemma retype_spec (column : string) (type_ : sa_type) (c : Column) :
  col_name (retype column type_ c) = col_name c
  ∧ col_autoincrement (retype column type_ c) = col_autoincrement c
  ∧ col_nullable (retype column type_ c) = col_nullable c
  ∧ col_type (retype column type_ c)
    = if decide (col_name c = column) then type_ else col_type c.
Proof. unfold retype. by destruct (decide _). Qed.

Lemma retype_retype (column : string) (t1 t2 : sa_type) (c : Column) :
  retype column t2 (retype column t1 c) = retype column t2 c.
Proof.
  unfold retype. destruct (decide (col_name c = column)) as [Heq|Hne]; simpl.
  - by rewrite decide_True.
  - by rewrite decide_False.
Qed.

Lemma retype_id (column : string) (type_ : sa_type) (c : Column) :
  (col_name c = column → col_type c = type_) → retype column type_ c = c.
Proof.
  intros Hty. unfold retype. destruct (decide _) as [Heq|]; [|done].
  destruct c as [n t a b]. simpl in *. by rewrite (Hty Heq).
Qed.

Lemma retype_names (column : string) (type_ : sa_type) (cols : list Column) :
  col_name <$> (retype column type_ <$> cols) = col_name <$> cols.
Proof.
  rewrite <- list_fmap_compose. apply list_fmap_ext.
  intros i c _. simpl. apply retype_spec.
Qed.


Lemma fits_wider (v : string) : fits (VARCHAR 80) v → fits (String_ 200) v.
Proof. simpl. lia. Qed.

Lemma values_fit_wider (column : string) (rs : list (list (string * string))) :
  values_fit column (VARCHAR 80) rs → values_fit column (String_ 200) rs.
Proof.
  unfold values_fit. intros Hall.
  eapply Forall_impl; [exact Hall|]. intros r Hr.
  eapply Forall_impl; [exact Hr|]. intros kv Hkv Hc. by apply fits_wider, Hkv.
Qed.

Lemma upgrade_Some (s s' : Schema) :
  upgrade s = Some s' ↔
  ∃ legacy users,
    s !! "User" = Some legacy ∧ s !! "users" = Some users
    ∧ "password" ∈ col_name <$> columns users
    ∧ values_fit "password" (String_ 200) (records users)
    ∧ s' = <["users" := with_password_type (String_ 200) users]> (delete "User" s).
Proof.
  unfold upgrade, drop_table, alter_column. split.
  - destruct (s !! "User") as [legacy|] eqn:HU; [|done]. simpl.
    rewrite lookup_delete_ne by done.
    destruct (s !! "users") as [users|] eqn:Hu; [|done].
    destruct (decide (_ ∈ _)) as [Hin|]; [|done].
    destruct (decide (values_fit _ _ _)) as [Hfit|]; [|done]. intros [= <-].
    by exists legacy, users.
  - intros (legacy & users & HU & Hu & Hin & Hfit & ->).
    rewrite HU. simpl. rewrite lookup_delete_ne by done.
    rewrite Hu. rewrite decide_True by done. by rewrite decide_True.
Qed.

Lemma downgrade_Some (s s' : Schema) :
  downgrade s = Some s' ↔
  ∃ users,
    s !! "users" = Some users ∧ "password" ∈ col_name <$> columns users
    ∧ values_fit "password" (VARCHAR 80) (records users)
    ∧ s !! "User" = None
    ∧ s' = <["User" := legacy_User]>
             (<["users" := with_password_type (VARCHAR 80) users]> s).
Proof.
  unfold downgrade, create_table, alter_column. split.
  - destruct (s !! "users") as [users|] eqn:Hu; [|done].
    destruct (decide (_ ∈ _)) as [Hin|]; [|done].
    destruct (decide (values_fit _ _ _)) as [Hfit|]; [|done]. simpl.
    rewrite lookup_insert_ne by done.
    destruct (s !! "User") eqn:HU; [done|]. intros [= <-].
    by exists users.
  - intros (users & Hu & Hin & Hfit & HU & ->).
    rewrite Hu. rewrite decide_True by done. rewrite decide_True by done. simpl.
    rewrite lookup_insert_ne by done. by rewrite HU.
Qed.




(** * Further properties of the routes *)

(** ** What a protected route lets through *)

Lemma decode_token_inr (t : Z) (tok : EncodedToken) (c : Claims) :
  decode_token JWT_SECRET_KEY t tok = inr c →
  c = payload tok ∧ token_valid_at t tok.
Proof.
  unfold decode_token, token_valid_at.
  repeat case_bool_decide; intros [=]; subst.
  split; [done|]. repeat split; (done || lia).
Qed.

Lemma jwt_required_inr (w : World) (env : Env) (a : option bearer)
    (refresh_route : bool) (c : Claims) :
  jwt_required w env a refresh_route = inr c →
  ∃ tok, a = Some (Bearer tok) ∧ c = payload tok
    ∧ token_valid_at (now env) tok
    ∧ c_type (payload tok) = required_type refresh_route
    ∧ c_jti (payload tok) ∉ BLOCKLIST w.
Proof.
  unfold jwt_required, verify_jwt_in_request.
  destruct a as [[raw|tok]|]; try done.
  destruct (decode_token _ _ _) as [e|c'] eqn:Hd; [done|].
  apply decode_token_inr in Hd as [-> Hv].
  unfold verify_token_type, check_if_token_in_blocklist. simpl.
  destruct refresh_route, (c_type (payload tok)) eqn:Hty; try done;
    case_bool_decide; try done; intros [= <-]; by exists tok.
Qed.

Lemma jwt_required_same_membership (w1 w2 : World) (env : Env)
    (tok : EncodedToken) (refresh_route : bool) :
  (c_jti (payload tok) ∈ BLOCKLIST w1 ↔ c_jti (payload tok) ∈ BLOCKLIST w2) →
  jwt_required w1 env (Some (Bearer tok)) refresh_route
  = jwt_required w2 env (Some (Bearer tok)) refresh_route.
Proof.
  intros Hiff. unfold jwt_required, verify_jwt_in_request.
  destruct (decode_token _ _ _) as [e|c] eqn:Hd; [done|].
  apply decode_token_inr in Hd as [-> _].
  destruct (verify_token_type _ _) as [e|[]]; [done|]. simpl.
  unfold check_if_token_in_blocklist.
  by rewrite (bool_decide_ext _ _ Hiff).
Qed.



(** X2. No route ever answers through the fresh-token callback: no
    view asks for a fresh token, so the error code
    "fresh_token_required" is never produced, whatever the request. *)
Theorem fresh_token_required_never `{Pbkdf2Sha256}
    (w : World) (env : Env) (r : request) :
  (dispatch w env r).2 ≠ token_not_fresh_callback
  ∧ error_code (dispatch w env r).2 ≠ Some "fresh_token_required".
Proof.
  assert (∀ a rr o, jwt_required w env a rr = inl o →
            o ≠ token_not_fresh_callback
            ∧ error_code o ≠ Some "fresh_token_required") as Hrefuse.
  { intros a rr o. unfold jwt_required.
    destruct (verify_jwt_in_request _ _ _ _ _ _) as [e|c] eqn:Hv; [|done].
    intros [= <-].
    assert (e ≠ FreshTokenRequired) as Hne.
    { unfold verify_jwt_in_request in Hv.
      destruct a as [[fields|tok]|]; [| |by simplify_eq].
      - unfold decode_garbage_header in Hv.
        destruct (filter _ fields) as [|[first rest] [|f2 l]];
          try case_bool_decide; by simplify_eq.
      - destruct (decode_token _ _ _) as [e'|c] eqn:Hd.
        + unfold decode_token in Hd. repeat case_bool_decide; by simplify_eq.
        + destruct (verify_token_type _ _) as [e'|[]] eqn:Hty.
          * unfold verify_token_type in Hty.
            destruct rr, (c_type c); by simplify_eq.
          * simpl in Hv. destruct (check_if_token_in_blocklist _ _); by simplify_eq. }
    by destruct e. }
  destruct r as [d|d|a|i|i|a]; simpl.
  - unfold UserRegister_post, UserRegister_check, UserRegister_insert.
    destruct (query_by_username_first _ _); [by split|].
    destruct (session_add_commit _ _ _); by split.
  - unfold UserLogin_post.
    destruct (query_by_username_first _ _); [|by split].
    destruct (pbkdf2_sha256_verify _ _); by split.
  - unfold UserLogout_post.
    destruct (jwt_required w env a false) as [o|c] eqn:Hj; [|by split].
    by apply (Hrefuse a false).
  - unfold User_get. destruct (query_get _ _); by split.
  - unfold User_delete. destruct (query_get _ _); by split.
  - unfold TokenRefresh_post.
    destruct (jwt_required w env a true) as [o|c] eqn:Hj; [|by split].
    by apply (Hrefuse a true).
Qed.


(** X4. An identifier enters the registry only on behalf of a token the
    service itself signed: when a request adds a [jti], the request is
    a logout carrying an access token or a refresh carrying a refresh
    token, the token bears that [jti], is signed with the configured
    key and is unexpired.  A forged or expired token revokes nothing. *)
Theorem BLOCKLIST_entries_are_signed `{Pbkdf2Sha256}
    (w : World) (env : Env) (r : request) (jti : string) :
  jti ∈ BLOCKLIST (dispatch w env r).1 → jti ∉ BLOCKLIST w →
  ∃ tok,
    (r = POST_logout (Some (Bearer tok)) ∧ c_type (payload tok) = access
     ∨ r = POST_refresh (Some (Bearer tok)) ∧ c_type (payload tok) = refresh)
    ∧ c_jti (payload tok) = jti
    ∧ token_valid_at (now env) tok.
Proof.
  intros Hafter Hbefore.
  destruct r as [d|d|a|i|i|a].
  - exfalso. revert Hafter. simpl.
    unfold UserRegister_post, UserRegister_check, UserRegister_insert.
    destruct (query_by_username_first _ _); [done|].
    by destruct (session_add_commit _ _ _).
  - exfalso. revert Hafter. simpl. unfold UserLogin_post.
    destruct (query_by_username_first _ _); [|done].
    by destruct (pbkdf2_sha256_verify _ _).
  - revert Hafter. simpl. unfold UserLogout_post.
    destruct (jwt_required w env a false) as [o|c] eqn:Hj; [done|].
    apply jwt_required_inr in Hj as (tok & -> & -> & Hv & Hty & Hnb).
    simpl. intros Hin. exists tok. split; [by left|]. split; [|done].
    apply elem_of_union in Hin as [Hin|Hin]; [|done].
    by apply elem_of_singleton in Hin.
  - exfalso. revert Hafter. simpl. unfold User_get. by destruct (query_get _ _).
  - exfalso. revert Hafter. simpl. unfold User_delete. by destruct (query_get _ _).
  - revert Hafter. simpl. unfold TokenRefresh_post.
    destruct (jwt_required w env a true) as [o|c] eqn:Hj; [done|].
    apply jwt_required_inr in Hj as (tok & -> & -> & Hv & Hty & Hnb).
    simpl. intros Hin. exists tok. split; [by right|]. split; [|done].
    apply elem_of_union in Hin as [Hin|Hin]; [|done].
    by apply elem_of_singleton in Hin.
Qed.

Lemma BLOCKLIST_entries_are_signed_witness :
  ∃ tok,
    (POST_logout (Some (Bearer access_tok)) = POST_logout (Some (Bearer tok))
       ∧ c_type (payload tok) = access
     ∨ POST_logout (Some (Bearer access_tok)) = POST_refresh (Some (Bearer tok))
       ∧ c_type (payload tok) = refresh)
    ∧ c_jti (payload tok) = "jti-a"
    ∧ token_valid_at (now env1) tok.
Proof.
  apply (@BLOCKLIST_entries_are_signed demo_hasher world_alice env1
           (POST_logout (Some (Bearer access_tok))) "jti-a").
  - by_compute.
  - by_compute.
Defined.

(** ** Tokens next to one another *)

Lemma UserLogout_post_world (w : World) (env : Env) (a : option bearer) :
  (UserLogout_post w env a).1 = w
  ∨ ∃ tok, a = Some (Bearer tok)
      ∧ (UserLogout_post w env a).1 = BLOCKLIST_add (c_jti (payload tok)) w.
Proof.
  unfold UserLogout_post.
  destruct (jwt_required w env a false) as [o|c] eqn:Hj; [by left|].
  apply jwt_required_inr in Hj as (tok & -> & -> & _). right. by exists tok.
Qed.

Lemma TokenRefresh_post_world (w : World) (env : Env) (a : option bearer) :
  (TokenRefresh_post w env a).1 = w
  ∨ ∃ tok, a = Some (Bearer tok)
      ∧ (TokenRefresh_post w env a).1 = BLOCKLIST_add (c_jti (payload tok)) w.
Proof.
  unfold TokenRefresh_post.
  destruct (jwt_required w env a true) as [o|c] eqn:Hj; [by left|].
  apply jwt_required_inr in Hj as (tok & -> & -> & _). right. by exists tok.
Qed.

Lemma protected_outcome_same_membership (w1 w2 : World) (env : Env)
    (tok : EncodedToken) :
  (c_jti (payload tok) ∈ BLOCKLIST w1 ↔ c_jti (payload tok) ∈ BLOCKLIST w2) →
  (UserLogout_post w1 env (Some (Bearer tok))).2
    = (UserLogout_post w2 env (Some (Bearer tok))).2
  ∧ (TokenRefresh_post w1 env (Some (Bearer tok))).2
    = (TokenRefresh_post w2 env (Some (Bearer tok))).2.
Proof.
  intros Hiff. unfold UserLogout_post, TokenRefresh_post.
  rewrite (jwt_required_same_membership w1 w2 env tok false Hiff).
  rewrite (jwt_required_same_membership w1 w2 env tok true Hiff).
  split.
  - by destruct (jwt_required w2 env (Some (Bearer tok)) false).
  - by destruct (jwt_required w2 env (Some (Bearer tok)) true).
Qed.

(** X5. Revocation is per token.  Whatever a logout or a refresh
    request did, a token whose [jti] differs from that of the token the
    request carried is answered afterwards, on both protected routes,
    as it would have been before: logging out with an access token
    leaves the refresh token of the same login usable, and using up a
    refresh token leaves the access tokens usable. *)
Theorem revocation_is_per_token (w : World) (env env' : Env)
    (a : option bearer) (other : EncodedToken) :
  (∀ tok, a = Some (Bearer tok) → c_jti (payload tok) ≠ c_jti (payload other)) →
  ∀ w1, w1 = (UserLogout_post w env a).1 ∨ w1 = (TokenRefresh_post w env a).1 →
    (UserLogout_post w1 env' (Some (Bearer other))).2
      = (UserLogout_post w env' (Some (Bearer other))).2
    ∧ (TokenRefresh_post w1 env' (Some (Bearer other))).2
      = (TokenRefresh_post w env' (Some (Bearer other))).2.
Proof.
  intros Hother w1 Hw1. apply protected_outcome_same_membership.
  assert (w1 = w ∨ ∃ tok, a = Some (Bearer tok)
                     ∧ w1 = BLOCKLIST_add (c_jti (payload tok)) w) as [->|Hadd].
  { destruct Hw1 as [-> | ->].
    - apply UserLogout_post_world.
    - apply TokenRefresh_post_world. }
  - done.
  - destruct Hadd as (tok & Ha & ->). specialize (Hother tok Ha). simpl.
    rewrite elem_of_union, elem_of_singleton. split; [|by right].
    intros [Heq|Hin]; [congruence|done].
Qed.

Lemma revocation_is_per_token_witness :
  (TokenRefresh_post
     (UserLogout_post world_alice env1 (Some (Bearer access_tok))).1
     env2 (Some (Bearer refresh_tok))).2
  = (TokenRefresh_post world_alice env2 (Some (Bearer refresh_tok))).2.
Proof.
  apply (revocation_is_per_token world_alice env1 env2
           (Some (Bearer access_tok)) refresh_tok).
  - intros tok [= <-]. simpl. discriminate.
  - by left.
Defined.

(** ** Tokens the service issues *)

Lemma minted_access_token_valid (t : Z) (uuid : string) (identity : Z)
    (fresh : bool) (t' : Z) :
  t ≤ t' → t' < t + JWT_ACCESS_TOKEN_EXPIRES →
  token_valid_at t' (create_access_token JWT_SECRET_KEY t uuid identity fresh).
Proof. intros Hle Hlt. by repeat split. Qed.

Lemma minted_refresh_token_valid (t : Z) (uuid : string) (identity : Z) (t' : Z) :
  t ≤ t' → t' < t + JWT_REFRESH_TOKEN_EXPIRES →
  token_valid_at t' (create_refresh_token JWT_SECRET_KEY t uuid identity).
Proof. intros Hle Hlt. by repeat split. Qed.

(** X6. The tokens of a successful login work where they are meant to,
    and only there.  Presented no earlier than the login, within its
    lifetime and while its [jti] is not revoked, the access token is
    accepted by logout and refused by
    refresh with "invalid_token"; the refresh token is accepted by
    refresh, which issues a non-fresh access token for the id of the
    user who logged in, and refused by logout with "invalid_token". *)
Theorem login_tokens_usable `{Pbkdf2Sha256}
    (w : World) (env : Env) (user_data : UserData) (u : UserModel.t) :
  Store_wf (db w) → u ∈ rows (db w) →
  UserModel.username u = ud_username user_data →
  pbkdf2_sha256_verify (ud_password user_data) (UserModel.password u) = true →
  ∃ a r,
    (UserLogin_post w env user_data).2
      = Response [("access_token", VJwt a); ("refresh_token", VJwt r)] 200
    ∧ ∀ (w' : World) (env' : Env),
        now env ≤ now env' →
        (now env' < now env + JWT_ACCESS_TOKEN_EXPIRES →
         uuid_1 env ∉ BLOCKLIST w' →
           UserLogout_post w' env' (Some (Bearer a))
             = (BLOCKLIST_add (uuid_1 env) w',
                Response [("message", VStr "Successfully logged out")] 200)
           ∧ TokenRefresh_post w' env' (Some (Bearer a))
             = (w', invalid_token_callback))
        ∧ (now env' < now env + JWT_REFRESH_TOKEN_EXPIRES →
           uuid_2 env ∉ BLOCKLIST w' →
             TokenRefresh_post w' env' (Some (Bearer r))
               = (BLOCKLIST_add (uuid_2 env) w',
                  Response [("access_token",
                             VJwt (create_access_token JWT_SECRET_KEY (now env')
                                     (uuid_1 env') (UserModel.id u) false))] 200)
             ∧ UserLogout_post w' env' (Some (Bearer r))
               = (w', invalid_token_callback)).
Proof.
  intros Hwf Hu Hname Hver.
  exists (create_access_token JWT_SECRET_KEY (now env) (uuid_1 env) (UserModel.id u) true),
         (create_refresh_token JWT_SECRET_KEY (now env) (uuid_2 env) (UserModel.id u)).
  split.
  { unfold UserLogin_post.
    rewrite <- Hname, (query_by_username_first_stored _ _ Hwf Hu).
    by rewrite Hver. }
  intros w' env' Hlater. split.
  - intros Hlife Hnb.
    pose proof (minted_access_token_valid (now env) (uuid_1 env) (UserModel.id u)
                  true (now env') Hlater Hlife) as Hv.
    split.
    + by rewrite (UserLogout_post_accepts w' env' _ Hv eq_refl Hnb).
    + unfold TokenRefresh_post.
      by rewrite (jwt_required_wrong_type w' env' _ true Hv).
  - intros Hlife Hnb.
    pose proof (minted_refresh_token_valid (now env) (uuid_2 env) (UserModel.id u)
                  (now env') Hlater Hlife) as Hv.
    split.
    + by rewrite (TokenRefresh_post_accepts w' env' _ Hv eq_refl Hnb).
    + unfold UserLogout_post.
      by rewrite (jwt_required_wrong_type w' env' _ false Hv).
Qed.

Lemma login_tokens_usable_witness :
  ∃ a r,
    (@UserLogin_post demo_hasher world_alice env0 alice).2
      = Response [("access_token", VJwt a); ("refresh_token", VJwt r)] 200
    ∧ UserLogout_post world_alice env1 (Some (Bearer a))
      = (BLOCKLIST_add "jti-a" world_alice,
         Response [("message", VStr "Successfully logged out")] 200)
    ∧ UserLogout_post world_alice env1 (Some (Bearer r))
      = (world_alice, invalid_token_callback).
Proof.
  destruct (@login_tokens_usable demo_hasher world_alice env0 alice
              (UserModel.mk 1 "alice" (demo_hash "s1" "wonderland"))
              world_alice_wf ltac:(by_compute) eq_refl eq_refl)
    as (a & r & Hlogin & Huse).
  exists a, r. split; [exact Hlogin|].
  destruct (Huse world_alice env1 ltac:(by_compute)) as [Hacc Href].
  split.
  - exact (proj1 (Hacc ltac:(by_compute) ltac:(by_compute))).
  - exact (proj2 (Href ltac:(by_compute) ltac:(by_compute))).
Defined.

Lemma TokenRefresh_post_access_401 (w : World) (env : Env) (tok : EncodedToken) :
  c_type (payload tok) = access →
  status_code (TokenRefresh_post w env (Some (Bearer tok))).2 = 401.
Proof.
  intros Hty. unfold TokenRefresh_post.
  destruct (jwt_required w env (Some (Bearer tok)) true) as [o|c] eqn:Hj; simpl.
  - by eapply jwt_required_refusal_401.
  - apply jwt_required_inr in Hj as (tok' & [= <-] & _ & _ & Hty' & _).
    simpl in Hty'. congruence.
Qed.

(** X7. A refresh cannot be repeated with what it leaves in hand.  The
    answer to a successful refresh holds one token, an access token;
    from then on, after any further requests and at any time, the
    refresh route answers 401 both to the refresh token that was used
    and to the access token that was issued.  A new login is the only
    way to a further refresh. *)
Theorem refresh_cannot_be_repeated `{Pbkdf2Sha256}
    (w : World) (env : Env) (tok : EncodedToken) :
  token_valid_at (now env) tok → c_type (payload tok) = refresh →
  c_jti (payload tok) ∉ BLOCKLIST w →
  ∃ new_token,
    TokenRefresh_post w env (Some (Bearer tok))
      = (BLOCKLIST_add (c_jti (payload tok)) w,
         Response [("access_token", VJwt new_token)] 200)
    ∧ ∀ (trace : list (Env * request)) (env' : Env),
        status_code
          (TokenRefresh_post
             (serve (TokenRefresh_post w env (Some (Bearer tok))).1 trace)
             env' (Some (Bearer tok))).2 = 401
        ∧ status_code
            (TokenRefresh_post
               (serve (TokenRefresh_post w env (Some (Bearer tok))).1 trace)
               env' (Some (Bearer new_token))).2 = 401.
Proof.
  intros Hv Hty Hnb.
  rewrite (TokenRefresh_post_accepts w env tok Hv Hty Hnb).
  eexists. split; [reflexivity|]. intros trace env'. simpl. split.
  - apply TokenRefresh_post_blocklisted_401, revoked_stays_revoked.
  - by apply TokenRefresh_post_access_401.
Qed.

Lemma refresh_cannot_be_repeated_witness :
  ∃ new_token,
    TokenRefresh_post world_alice env1 (Some (Bearer refresh_tok))
      = (BLOCKLIST_add "jti-b" world_alice,
         Response [("access_token", VJwt new_token)] 200)
    ∧ status_code
        (TokenRefresh_post
           (@serve demo_hasher
              (TokenRefresh_post world_alice env1 (Some (Bearer refresh_tok))).1
              [(env1, POST_login alice)])
           env2 (Some (Bearer new_token))).2 = 401.
Proof.
  destruct (@refresh_cannot_be_repeated demo_hasher world_alice env1 refresh_tok)
    as (n & Hpost & Hlater).
  - valid_token.
  - reflexivity.
  - by_compute.
  - exists n. split; [exact Hpost|].
    exact (proj2 (Hlater [(env1, POST_login alice)] env2)).
Defined.

(** ** Register, then the other routes *)







(** ** Delete, then the other routes *)





(** ** All requests, one at a time *)

Lemma count_username_le_1 (s : Store) (name : string) :
  Store_wf s → (count_username s name ≤ 1)%nat.
Proof.
  intros Hwf. destruct (decide (name ∈ UserModel.username <$> rows s)) as [Hin|Hout].
  - apply list_elem_of_fmap in Hin as (u & -> & Hu).
    by rewrite count_username_stored.
  - unfold count_username.
    rewrite (filter_key_absent UserModel.username) by done. simpl. lia.
Qed.

(** X10. The database the routes build is consistent.  Starting from
    the empty database and serving any sequence of requests one at a
    time, no two stored users share a username or an id, every id in
    use was handed out by the sequence, every stored username fits its
    column, and a username is carried by at most one user. *)
Theorem reachable_store_wf `{Pbkdf2Sha256} (trace : list (Env * request)) :
  Store_wf (db (serve initial_world trace))
  ∧ ∀ name, (count_username (db (serve initial_world trace)) name ≤ 1)%nat.
Proof.
  assert (Store_wf (db (serve initial_world trace))) as Hwf
    by apply serve_wf, initial_world_wf.
  split; [done|]. intros name. by apply count_username_le_1.
Qed.



(** ** The migration, run again and run backwards *)

Lemma with_password_type_twice (t1 t2 : sa_type) (t : Table) :
  with_password_type t2 (with_password_type t1 t) = with_password_type t2 t.
Proof.
  unfold with_password_type. simpl. f_equal.
  rewrite <- list_fmap_compose. apply list_fmap_ext.
  intros i c _. simpl. apply retype_retype.
Qed.

Lemma with_password_type_id (type_ : sa_type) (t : Table) :
  Forall (λ c, col_name c = "password" → col_type c = type_) (columns t) →
  with_password_type type_ t = t.
Proof.
  intros Hall. destruct t as [cols cons recs]. unfold with_password_type. simpl in *.
  f_equal. rewrite <- (list_fmap_id cols) at 2. apply list_fmap_ext.
  intros i c Hc. simpl. apply retype_id.
  rewrite Forall_forall in Hall. apply Hall. by eapply list_elem_of_lookup_2.
Qed.

(** X12. Neither direction of the revision can be run twice in a row.
    After an upgrade the legacy [User] table is gone, so a second
    upgrade stops at its [drop_table]; after a downgrade that table
    exists, so a second downgrade stops at its [create_table]. *)
Theorem migration_not_rerunnable (s s' : Schema) :
  (upgrade s = Some s' → upgrade s' = None)
  ∧ (downgrade s = Some s' → downgrade s' = None).
Proof.
  split.
  - intros (legacy & users & _ & _ & _ & _ & ->)%upgrade_Some.
    unfold upgrade, drop_table.
    rewrite lookup_insert_ne by done. by rewrite lookup_delete_eq.
  - intros (users & _ & Hin & _ & _ & ->)%downgrade_Some.
    unfold downgrade, alter_column, create_table.
    rewrite lookup_insert_ne by done. rewrite lookup_insert_eq.
    rewrite decide_True by (simpl; by rewrite retype_names).
    destruct (decide (values_fit _ _ _)); [|done]. simpl.
    rewrite lookup_insert_ne by done. by rewrite lookup_insert_eq.
Qed.

Lemma migration_not_rerunnable_witness :
  ∃ s', upgrade schema_before = Some s' ∧ upgrade s' = None.
Proof.
  destruct (upgrade schema_before) as [s'|] eqn:Hup; [|discriminate Hup].
  exists s'. split; [reflexivity|].
  exact (proj1 (migration_not_rerunnable schema_before s') Hup).
Defined.



(** X14. The revision run backwards and then forwards.  On a schema
    without a [User] table whose [users.password] column is
    String(200) and holds no password longer than 80 characters, the
    downgrade succeeds, the upgrade of its result succeeds, and the two
    together give back the schema they started from. *)
Theorem downgrade_then_upgrade (s : Schema) (users : Table) :
  s !! "User" = None → s !! "users" = Some users →
  "password" ∈ col_name <$> columns users →
  Forall (λ c, col_name c = "password" → col_type c = String_ 200) (columns users) →
  values_fit "password" (VARCHAR 80) (records users) →
  ∃ s', downgrade s = Some s'
    ∧ s' !! "users" = Some (with_password_type (VARCHAR 80) users)
    ∧ s' !! "User" = Some legacy_User
    ∧ upgrade s' = Some s.
Proof.
  intros HU Hu Hin Hall Hfit.
  exists (<["User" := legacy_User]>
            (<["users" := with_password_type (VARCHAR 80) users]> s)).
  split. { apply downgrade_Some. by exists users. }
  split. { rewrite lookup_insert_ne by done. apply lookup_insert_eq. }
  split. { apply lookup_insert_eq. }
  apply upgrade_Some.
  exists legacy_User, (with_password_type (VARCHAR 80) users).
  split; [apply lookup_insert_eq|].
  split; [rewrite lookup_insert_ne by done; apply lookup_insert_eq|].
  split; [simpl; by rewrite retype_names|].
  split; [simpl; by apply values_fit_wider|].
  rewrite with_password_type_twice, (with_password_type_id _ _ Hall).
  rewrite delete_insert_id by (by rewrite lookup_insert_ne).
  rewrite insert_insert_eq. symmetry. by apply insert_id.
Qed.

Lemma downgrade_then_upgrade_witness :
  ∃ s', downgrade schema_after = Some s'
    ∧ s' !! "User" = Some legacy_User
    ∧ upgrade s' = Some schema_after.
Proof.
  destruct (downgrade_then_upgrade schema_after
              (with_password_type (String_ 200) users_80)
              eq_refl eq_refl ltac:(by_compute))
    as (s' & Hdown & _ & HU & Hup).
  - repeat constructor; simpl; intros; done.
  - by_compute.
  - exists s'. repeat split; assumption.
Defined.
